(** * P11_CM: LTE-style OFDM link simulator, core signal chain

    Shallow embedding of
      - [core/ts36212_channel_coding.py]: CRC attach/check, rate-1/3
        convolutional encoder, trellis table, hard-decision Viterbi decoder;
      - [core/ofdm_ops.py]: cyclic prefix insertion/removal, zero-forcing
        equaliser;
      - [core/utils.py]: seeded XOR scrambler;
      - [core/channel.py]: impulse response of the multipath channel.

    NumPy arrays of integers are lists of [Z]; fixed-width dtypes have
    their wrap-around written out where the code computes in them. The
    definitions come first, the lemmas and theorems about them after. *)

From Stdlib Require Import ZArith List Bool Lia Arith QArith Qround.
From Stdlib Require Import Reals Lra.
Import ListNotations.

#[local] Open Scope Z_scope.

(* ================================================================== *)
(** * Python and NumPy primitives used by the sources *)
(* ================================================================== *)

Module Py.

(** [range(n)] as a list of integers. *)
Definition range (n : nat) : list Z := map Z.of_nat (seq 0 n).

(** [int.bit_count()]: number of ones of the absolute value. *)
Fixpoint pos_bit_count (p : positive) : Z :=
  match p with
  | xH => 1
  | xO q => pos_bit_count q
  | xI q => 1 + pos_bit_count q
  end.

Definition bit_count (v : Z) : Z :=
  match v with
  | Z0 => 0
  | Zpos p => pos_bit_count p
  | Zneg p => pos_bit_count p
  end.

(** Index of a slice bound in a sequence of length [len]: a negative bound
    counts from the end, and every bound is clamped to [0, len]. *)
Definition bound (len : nat) (i : Z) : nat :=
  if i <? 0 then Z.to_nat (Z.max 0 (Z.of_nat len + i))
  else Nat.min len (Z.to_nat i).

(** [l[i:]] *)
Definition slice_from {A} (i : Z) (l : list A) : list A :=
  skipn (bound (length l) i) l.

(** [l[:j]] *)
Definition slice_to {A} (j : Z) (l : list A) : list A :=
  firstn (bound (length l) j) l.

(** [l[i:j]] *)
Definition slice {A} (i j : Z) (l : list A) : list A :=
  let a := bound (length l) i in
  let b := bound (length l) j in
  firstn (b - a) (skipn a l).

(** Wrap-around of the fixed-width NumPy dtypes the decoder computes in. *)
Definition wrap_uint8 (x : Z) : Z := x mod 256.
Definition wrap_int16 (x : Z) : Z := (x + 32768) mod 65536 - 32768.
Definition wrap_int32 (x : Z) : Z := (x + 2147483648) mod 4294967296 - 2147483648.

(** Integer indexing [a[i]] of an array, for an index in range. *)
Definition get (a : list Z) (i : Z) : Z := nth (Z.to_nat i) a 0.

(** A binary operation on two one-dimensional arrays, entry by entry. *)
Fixpoint map2 {A B C} (f : A -> B -> C) (x : list A) (y : list B) : list C :=
  match x, y with
  | a :: x', b :: y' => f a b :: map2 f x' y'
  | _, _ => []
  end.

(** NumPy's broadcasting of a binary operation on two one-dimensional
    arrays: equal lengths go entry by entry, an array of length 1 is
    stretched over the other, any other pair of lengths raises ([None]). *)
Definition broadcast2 {A B C} (f : A -> B -> C) (x : list A) (y : list B)
    : option (list C) :=
  if Nat.eqb (length x) (length y) then Some (map2 f x y)
  else match x, y with
       | [a], _ => Some (map (f a) y)
       | _, [b] => Some (map (fun a => f a b) x)
       | _, _ => None
       end.

End Py.

(** A bit array holds the values 0 and 1 only. *)
Definition is_bit (x : Z) : Prop := x = 0 \/ x = 1.
Definition bit_array (l : list Z) : Prop := Forall is_bit l.

(* ================================================================== *)
(** * CRC attachment and check (ts36212_channel_coding.py) *)
(* ================================================================== *)

Inductive CRCName := CRC24A | CRC24B | CRC16 | CRC8.

(** [_poly_to_int]: bitmask of the listed degrees. *)
Definition _poly_to_int (degrees : list Z) : Z :=
  fold_left (fun out d => Z.lor out (Z.shiftl 1 d)) degrees 0.

(** [_CRC_POLYS]: degree [L] and generator mask without the top term. *)
Definition _CRC_POLYS (crc : CRCName) : Z * Z :=
  match crc with
  | CRC24A => (24, _poly_to_int [23; 18; 17; 14; 11; 10; 7; 6; 5; 4; 3; 1; 0])
  | CRC24B => (24, _poly_to_int [23; 6; 5; 1; 0])
  | CRC16 => (16, _poly_to_int [12; 5; 0])
  | CRC8 => (8, _poly_to_int [7; 4; 3; 1; 0])
  end.

(** One iteration of the message loop of [crc_attach] / the loop of
    [crc_check]: feedback is the register MSB xor the input bit. *)
Definition crc_step (L poly : Z) (reg b : Z) : Z :=
  let mask := Z.shiftl 1 L - 1 in
  let msb := Z.land (Z.shiftr reg (L - 1)) 1 in
  let fb := Z.lxor msb b in
  let reg := Z.land (Z.shiftl reg 1) mask in
  if fb =? 0 then reg else Z.lxor reg poly.

(** One iteration of the second loop of [crc_attach] (the [L] appended
    zeros): feedback is the register MSB alone. *)
Definition crc_flush_step (L poly : Z) (reg : Z) : Z :=
  let mask := Z.shiftl 1 L - 1 in
  let msb := Z.land (Z.shiftr reg (L - 1)) 1 in
  let fb := msb in
  let reg := Z.land (Z.shiftl reg 1) mask in
  if fb =? 0 then reg else Z.lxor reg poly.

(** Register after the loop [for b in bits] started from [reg]. *)
Definition crc_register (L poly : Z) (bits : list Z) (reg : Z) : Z :=
  fold_left (crc_step L poly) bits reg.

Definition crc_flush (L poly : Z) (reg : Z) : Z :=
  fold_left (fun r _ => crc_flush_step L poly r) (Py.range (Z.to_nat L)) reg.

Definition crc_parity (L reg : Z) : list Z :=
  map (fun i => Z.land (Z.shiftr reg (L - 1 - i)) 1) (Py.range (Z.to_nat L)).

Definition crc_attach (bits : list Z) (crc : CRCName) : list Z :=
  let '(L, poly) := _CRC_POLYS crc in
  let reg := crc_register L poly bits 0 in
  let reg := crc_flush L poly reg in
  bits ++ crc_parity L reg.

Definition crc_check (bits_with_crc : list Z) (crc : CRCName) : list Z * bool :=
  let '(L, poly) := _CRC_POLYS crc in
  if Z.of_nat (length bits_with_crc) <? L then (bits_with_crc, false)
  else
    let reg := crc_register L poly bits_with_crc 0 in
    let ok := reg =? 0 in
    (Py.slice_to (- L) bits_with_crc, ok).

(* ================================================================== *)
(** * Convolutional code (ts36212_channel_coding.py) *)
(* ================================================================== *)

(** [_octal_to_int]: the decimal digits of [oct_val] read in base 8
    ([int(str(oct_val), 8)], for a non-negative value with digits below 8). *)
Fixpoint octal_digits (fuel : nat) (n : Z) : Z :=
  match fuel with
  | O => 0
  | S f => if n =? 0 then 0 else n mod 10 + 8 * octal_digits f (n / 10)
  end.

Definition _octal_to_int (oct_val : Z) : Z :=
  octal_digits (Z.to_nat oct_val) oct_val.

Record ConvCodeConfig := {
  constraint_len : Z;
  generators_octal : list Z
}.

Definition generators (cfg : ConvCodeConfig) : list Z :=
  let gens := map _octal_to_int (generators_octal cfg) in
  map (fun g => Z.land g (Z.shiftl 1 (constraint_len cfg) - 1)) gens.

Definition memory (cfg : ConvCodeConfig) : Z := constraint_len cfg - 1.

Definition n_states (cfg : ConvCodeConfig) : Z := Z.shiftl 1 (memory cfg).

Definition _DEFAULT_CONV : ConvCodeConfig :=
  {| constraint_len := 7; generators_octal := [133; 171; 165] |}.

(** The sources only ever run with the default configuration. *)
Definition m : Z := memory _DEFAULT_CONV.
Definition gens : list Z := generators _DEFAULT_CONV.

(** The three coded bits of one encoder step: parity of the AND of the
    7-bit register [[u, s0..s5]] with each generator. *)
Definition conv_out (u state : Z) : list Z :=
  let reg := Z.lor (Z.shiftl u m) state in
  map (fun g => Z.land (Py.bit_count (Z.land reg g)) 1) gens.

(** State update of one encoder step: [[u, s0..s4]]. *)
Definition conv_next (u state : Z) : Z :=
  Z.land (Z.lor (Z.shiftl u (m - 1)) (Z.shiftr state 1)) (Z.shiftl 1 m - 1).

(** The main loop of [conv_encode] over [in_bits]. *)
Fixpoint conv_loop (in_bits : list Z) (state : Z) : list Z :=
  match in_bits with
  | [] => []
  | u :: rest => conv_out u state ++ conv_loop rest (conv_next u state)
  end.

(** Register state when the main loop of [conv_encode] ends. *)
Fixpoint conv_final_state (in_bits : list Z) (state : Z) : Z :=
  match in_bits with
  | [] => state
  | u :: rest => conv_final_state rest (conv_next u state)
  end.

(** Initial register state chosen by [conv_encode]. *)
Definition conv_init_state (bits : list Z) (tail_biting : bool) : Z :=
  if tail_biting && (m <=? Z.of_nat (length bits)) then
    let last := Py.slice_from (- m) bits in
    (* for i, b in enumerate(last): state |= int(b) << (m - 1 - i) *)
    fold_left (fun state ib => Z.lor state (Z.shiftl (snd ib) (m - 1 - fst ib)))
              (combine (Py.range (length last)) last) 0
  else 0.

(** Input of the main loop of [conv_encode]. *)
Definition conv_in_bits (bits : list Z) (terminate tail_biting : bool) : list Z :=
  if terminate && negb tail_biting then bits ++ repeat 0 (Z.to_nat m) else bits.

Definition conv_encode (bits : list Z) (terminate tail_biting : bool) : list Z :=
  conv_loop (conv_in_bits bits terminate tail_biting)
            (conv_init_state bits tail_biting).

(** ** Trellis tables *)

Definition trellis_entry (p u : Z) : Z * list Z :=
  let reg := Z.lor (Z.shiftl u m) p in
  let bits := map (fun g => Z.land (Py.bit_count (Z.land reg g)) 1) gens in
  let ns := Z.land (Z.lor (Z.shiftl u (m - 1)) (Z.shiftr p 1))
                   (n_states _DEFAULT_CONV - 1) in
  (ns, bits).

(** [_build_trellis]: [next_state[p][u]] and [out_bits[p][u][j]], both of
    dtype uint8. *)
Definition _build_trellis : list (list Z) * list (list (list Z)) :=
  let table :=
    map (fun p => map (trellis_entry p) [0; 1])
        (Py.range (Z.to_nat (n_states _DEFAULT_CONV))) in
  (map (map (fun e => Py.wrap_uint8 (fst e))) table,
   map (map (fun e => map Py.wrap_uint8 (snd e))) table).

Definition _TRELLIS_NEXT : list (list Z) := fst _build_trellis.
Definition _TRELLIS_OUT : list (list (list Z)) := snd _build_trellis.

(** [_TRELLIS_OUT[p, u]] *)
Definition trellis_out (p u : Z) : list Z :=
  nth (Z.to_nat u) (nth (Z.to_nat p) _TRELLIS_OUT []) [].

(** ** Viterbi decoder *)

Definition INF : Z := 1000000000.

Definition states : list Z := Py.range (Z.to_nat (n_states _DEFAULT_CONV)).

Definition u_for_state (s : Z) : Z := Z.land (Z.shiftr s (m - 1)) 1.
Definition p0 (s : Z) : Z := Z.shiftl (Z.land s (Z.shiftl 1 (m - 1) - 1)) 1.
Definition p1 (s : Z) : Z := Z.lor (p0 s) 1.

(** Hamming distance of an expected triple to the received one, summed in
    uint8 as NumPy does. *)
Definition branch_dist (out : list Z) (y0 y1 y2 : Z) : Z :=
  Py.wrap_uint8
    (Py.wrap_uint8 (Z.lxor (Py.get out 0) y0 + Z.lxor (Py.get out 1) y1)
     + Z.lxor (Py.get out 2) y2).

(** Add-compare-select for state [s]: new metric (int32) and recorded
    predecessor (int16). *)
Definition acs (metrics : list Z) (y0 y1 y2 : Z) (s : Z) : Z * Z :=
  let out0 := trellis_out (p0 s) (u_for_state s) in
  let out1 := trellis_out (p1 s) (u_for_state s) in
  let dist0 := branch_dist out0 y0 y1 y2 in
  let dist1 := branch_dist out1 y0 y1 y2 in
  let cand0 := Py.wrap_int32 (Py.get metrics (p0 s) + dist0) in
  let cand1 := Py.wrap_int32 (Py.get metrics (p1 s) + dist1) in
  let take1 := cand1 <? cand0 in
  (Py.wrap_int32 (if take1 then cand1 else cand0),
   Py.wrap_int16 (if take1 then p1 s else p0 s)).

(** One iteration of the main recursion: the new metrics and the row
    [prev_state[t, :]]. *)
Definition viterbi_step (metrics : list Z) (y0 y1 y2 : Z) : list Z * list Z :=
  let r := map (acs metrics y0 y1 y2) states in
  (map fst r, map snd r).

(** The main recursion over the received triples; returns the rows of
    [prev_state] in the order of [t]. *)
Fixpoint viterbi_forward (coded : list Z) (metrics : list Z) : list (list Z) :=
  match coded with
  | y0 :: y1 :: y2 :: rest =>
      let step := viterbi_step metrics y0 y1 y2 in
      snd step :: viterbi_forward rest (fst step)
  | _ => []
  end.

(** Traceback over the rows of [prev_state] taken from the last to the
    first; returns the decided bits in that (reversed) order. *)
Fixpoint traceback (rows_rev : list (list Z)) (state : Z) : list Z :=
  match rows_rev with
  | [] => []
  | row :: rest =>
      Z.land (Z.shiftr state (m - 1)) 1 :: traceback rest (Py.get row state)
  end.

(** The state the traceback is in after walking [rows_rev]. *)
Fixpoint traceback_state (rows_rev : list (list Z)) (state : Z) : Z :=
  match rows_rev with
  | [] => state
  | row :: rest => traceback_state rest (Py.get row state)
  end.

(** [np.full(n_states, INF)] with entry 0 set to 0. *)
Definition initial_metrics : list Z :=
  match repeat INF (Z.to_nat (n_states _DEFAULT_CONV)) with
  | [] => []
  | _ :: r => 0 :: r
  end.

Definition conv_decode_terminated (coded_bits : list Z) (drop_tail : bool) : list Z :=
  let size := Z.of_nat (length coded_bits) in
  let coded_bits :=
    if negb (size mod 3 =? 0) then Py.slice_to (size - size mod 3) coded_bits
    else coded_bits in
  let n_steps := Z.of_nat (length coded_bits) / 3 in
  let prev_state := viterbi_forward coded_bits initial_metrics in
  let u_hat := rev (traceback (rev prev_state) 0) in
  if drop_tail && (m <=? n_steps) then Py.slice_to (- m) u_hat else u_hat.

(* ================================================================== *)
(** * Cyclic prefix (ofdm_ops.py) *)
(* ================================================================== *)

(** [int(x)] of a float: truncation toward zero. The product
    [n_fft * cp_ratio] is taken exactly; it is exact in floating point
    too when [n_fft] is a power of two. *)
Definition py_int (x : Q) : Z := Z.quot (Qnum x) (Zpos (Qden x)).

Section CyclicPrefixModel.

(** The samples are complex numbers; both functions only move them. *)
Variable sample : Type.

Definition add_cyclic_prefix (signal : list sample) (num_blocks n_fft : Z)
    (cp_ratio : Q) : list sample * Z :=
  let cp_len := py_int (inject_Z n_fft * cp_ratio) in
  let signal_with_cp :=
    concat (map (fun i =>
                   let block := Py.slice (i * n_fft) ((i + 1) * n_fft) signal in
                   let cp := Py.slice_from (- cp_len) block in
                   cp ++ block)
                (Py.range (Z.to_nat num_blocks))) in
  (signal_with_cp, cp_len).

(** [None] stands for the [ZeroDivisionError] of [len // block_len]. *)
Definition remove_cyclic_prefix (rx_signal : list sample) (n_fft cp_len : Z)
    : option (list sample) :=
  let block_len := n_fft + cp_len in
  if block_len =? 0 then None
  else
    let num_blocks := Z.of_nat (length rx_signal) / block_len in
    Some (concat (map (fun i =>
                        let full_block :=
                          Py.slice (i * block_len) ((i + 1) * block_len)
                                   rx_signal in
                        Py.slice_from cp_len full_block)
                     (Py.range (Z.to_nat num_blocks)))).

(** Block [i] of a list cut into blocks of [n] entries. *)
Definition chunk (n i : nat) (l : list sample) : list sample :=
  firstn n (skipn (i * n) l).

(** The [k] blocks of [signal], each behind a copy of its last [c]
    entries: what [add_cyclic_prefix] concatenates when [1 <= c <= n]. *)
Definition prefixed (signal : list sample) (k n c : nat) : list (list sample) :=
  map (fun b => skipn (n - c) b ++ b)
      (map (fun i => chunk n i signal) (seq 0 k)).

End CyclicPrefixModel.

Arguments add_cyclic_prefix {sample}.
Arguments remove_cyclic_prefix {sample}.
Arguments chunk {sample}.
Arguments prefixed {sample}.

(** A complex sample as a pair of rationals (real, imaginary). *)
Definition csample : Type := Q * Q.

(* ================================================================== *)
(** * Scrambler (utils.py) *)
(* ================================================================== *)

(** The scrambler works on NumPy's process-wide legacy generator. A
    computation over it takes the generator state and returns a value or
    raises, together with the state it leaves behind. *)
Module NpRandom.

Inductive result (A : Type) : Type :=
| Ok (a : A)
| Raise.

Arguments Ok {A} a.
Arguments Raise {A}.

Section Generator.

(** The full state of the global generator, as [get_state] returns it. *)
Variable rng : Type.

Definition NP (A : Type) : Type := rng -> result A * rng.

Definition ret {A} (a : A) : NP A := fun g => (Ok a, g).

Definition bind {A B} (c : NP A) (k : A -> NP B) : NP B :=
  fun g => match c g with
           | (Ok a, g') => k a g'
           | (Raise, g') => (Raise, g')
           end.

Definition raise {A} : NP A := fun g => (Raise, g).

(** [try: body finally: cleanup]: the cleanup runs on both exits; the
    value or the exception of the body is kept unless the cleanup
    raises. *)
Definition try_finally {A} (body : NP A) (cleanup : NP unit) : NP A :=
  fun g => match body g with
           | (r, g') => match cleanup g' with
                        | (Ok _, g'') => (r, g'')
                        | (Raise, g'') => (Raise, g'')
                        end
           end.

(** [np.random.get_state()] and [np.random.set_state(state)]. *)
Definition get_state : NP rng := fun g => (Ok g, g).
Definition set_state (state : rng) : NP unit := fun _ => (Ok tt, state).

(** [np.random.seed(seed)]: the new state depends on the seed only;
    [None] is the [ValueError] of a seed outside the accepted range. *)
Variable seeded : Z -> option rng.

Definition seed (s : Z) : NP unit :=
  fun g => match seeded s with
           | Some g' => (Ok tt, g')
           | None => (Raise, g)
           end.

(** [np.random.randint(0, 2, n)]: the [n] draws and the state after. *)
Variable draw_bits : nat -> rng -> list Z * rng.

Definition randint_0_2 (n : nat) : NP (list Z) :=
  fun g => let (v, g') := draw_bits n g in (Ok v, g').

(** [np.bitwise_xor] of two one-dimensional integer arrays. *)
Definition bitwise_xor (a b : list Z) : NP (list Z) :=
  match Py.broadcast2 Z.lxor a b with
  | Some v => ret v
  | None => raise
  end.

End Generator.

Arguments ret {rng A}.
Arguments bind {rng A B}.
Arguments raise {rng A}.
Arguments try_finally {rng A}.
Arguments get_state {rng}.
Arguments set_state {rng}.
Arguments seed {rng}.
Arguments randint_0_2 {rng}.
Arguments bitwise_xor {rng}.

Notation "x <- c ;; k" := (bind c (fun x => k))
  (at level 61, c at next level, right associativity).

End NpRandom.

Section Scrambler.

Import NpRandom.

Variable rng : Type.
Variable seeded : Z -> option rng.
Variable draw_bits : nat -> rng -> list Z * rng.

Definition apply_scrambling (bits : list Z) (seed_ : Z) : NP rng (list Z) :=
  state <- get_state ;;
  try_finally
    (_ <- seed seeded seed_ ;;
     scrambling_sequence <- randint_0_2 draw_bits (length bits) ;;
     scrambled_bits <- bitwise_xor bits scrambling_sequence ;;
     ret scrambled_bits)
    (set_state state).

End Scrambler.

Arguments apply_scrambling {rng}.

(** A small linear congruential generator, used to run the scrambler on
    concrete inputs in place of NumPy's Mersenne Twister. Seeds are
    accepted in the range of [np.random.seed], 0 to 2^32 - 1. *)
Definition lcg_seeded (s : Z) : option Z :=
  if (0 <=? s) && (s <? 4294967296) then Some s else None.

Definition lcg_next (g : Z) : Z := (1103515245 * g + 12345) mod 2147483648.

Fixpoint lcg_draw_bits (n : nat) (g : Z) : list Z * Z :=
  match n with
  | O => ([], g)
  | S k => let g' := lcg_next g in
           let (v, g'') := lcg_draw_bits k g' in
           (Z.land (Z.shiftr g' 16) 1 :: v, g'')
  end.

(* ================================================================== *)
(** * Zero-forcing equaliser (ofdm_ops.py) *)
(* ================================================================== *)

Section EqualizerModel.

(** Complex numbers and the NumPy operations on them are taken as given:
    division, [np.fft.fft(h, n)], the test [np.abs(z) < 1e-10] and the
    threshold [1e-10] as a complex number. *)
Variable complex : Type.
Variable cdiv : complex -> complex -> complex.
Variable fft : list complex -> Z -> list complex.
Variable below_threshold : complex -> bool.
Variable threshold : complex.

(** [H_data[np.abs(H_data) < threshold] = threshold] on one entry. *)
Definition clamp (z : complex) : complex :=
  if below_threshold z then threshold else z.

(** [np.tile(a, reps)] of a one-dimensional array; a negative count
    raises. *)
Definition np_tile (a : list complex) (reps : Z) : option (list complex) :=
  if reps <? 0 then None else Some (concat (repeat a (Z.to_nat reps))).

(** [x / y] of two one-dimensional complex arrays. *)
Definition np_divide (x y : list complex) : option (list complex) :=
  Py.broadcast2 cdiv x y.

(** [None] stands for an exception: the [ZeroDivisionError] of
    [len(rx) // nc], or an error of [np.tile] or of the division. *)
Definition equalize_channel (rx_freq_symbols h_impulse_response : list complex)
    (n_fft nc : Z) : option (list complex) :=
  let H_freq := fft h_impulse_response n_fft in
  let H_data := Py.slice 1 (nc + 1) H_freq in
  let H_data := map clamp H_data in
  let len := Z.of_nat (length rx_freq_symbols) in
  if nc =? 0 then None
  else
    match np_tile H_data (len / nc + 1) with
    | None => None
    | Some tiled => np_divide rx_freq_symbols (Py.slice_to len tiled)
    end.

End EqualizerModel.

Arguments clamp {complex}.
Arguments np_tile {complex}.
Arguments np_divide {complex}.
Arguments equalize_channel {complex}.

(** Gaussian rationals, to run the equaliser on concrete inputs: exact
    complex division, the 4-point transform (whose twiddle factors are
    1, -i, -1, i) and the magnitude test on the squared magnitude. *)
Definition qc : Type := (Q * Q)%type.

Definition qc_add (x y : qc) : qc := (Qred (fst x + fst y), Qred (snd x + snd y))%Q.

Definition qc_mul (x y : qc) : qc :=
  (Qred (fst x * fst y - snd x * snd y), Qred (fst x * snd y + snd x * fst y))%Q.

Definition qc_div (x y : qc) : qc :=
  let n := (fst y * fst y + snd y * snd y)%Q in
  (Qred ((fst x * fst y + snd x * snd y) / n),
   Qred ((snd x * fst y - fst x * snd y) / n))%Q.

(** Powers of [-i]. *)
Definition twiddle4 (e : nat) : qc :=
  match (e mod 4)%nat with
  | 0%nat => (1, 0)
  | 1%nat => (0, -1)
  | 2%nat => (-1, 0)
  | _ => (0, 1)
  end%Q.

Definition dft4 (h : list qc) (n : Z) : list qc :=
  let padded := firstn 4 (h ++ repeat (0, 0)%Q 4) in
  map (fun j => fold_left qc_add
                  (map (fun k => qc_mul (nth k padded (0, 0)%Q) (twiddle4 (j * k)))
                       (seq 0 4))
                  (0, 0)%Q)
      (seq 0 4).

Definition qc_below (z : qc) : bool :=
  negb (Qle_bool (1 # 100000000000000000000)
                 (fst z * fst z + snd z * snd z)%Q).

Definition qc_threshold : qc := (1 # 10000000000, 0)%Q.

(* ================================================================== *)
(** * Channel impulse response (channel.py) *)
(* ================================================================== *)

Section ChannelModel.

#[local] Open Scope R_scope.




End ChannelModel.

(* ================================================================== *)
(** * Definitions used in the proofs about the decoder *)
(* ================================================================== *)

(** Every trellis state has both predecessors among the 64 states, the
    int16 cast keeps them, and the decided bit of a state is a bit. *)
Definition chk_pred (s : Z) : bool :=
  (0 <=? p0 s) && (p0 s <? 64) && (0 <=? p1 s) && (p1 s <? 64)
  && (Py.wrap_int16 (p0 s) =? p0 s) && (Py.wrap_int16 (p1 s) =? p1 s)
  && ((u_for_state s =? 0) || (u_for_state s =? 1)).

(** A branch metric against a received triple of bits lies in 0..3. *)
Definition chk_dist (p : Z) : bool :=
  forallb (fun u => forallb (fun y0 => forallb (fun y1 => forallb (fun y2 =>
    let d := branch_dist (trellis_out p u) y0 y1 y2 in
    (0 <=? d) && (d <=? 3)) [0; 1]) [0; 1]) [0; 1]) [0; 1].

(** The transition the encoder takes from state [sigma] on input [u]:
    the successor is a state whose decided bit is [u], [sigma] is its
    predecessor of the parity of [sigma], the branch from [sigma] matches
    the emitted triple and the branch from the other predecessor differs
    from it in all three bits. *)
Definition chk_branch (sigma : Z) : bool :=
  forallb (fun u =>
    let s' := conv_next u sigma in
    match conv_out u sigma with
    | [y0; y1; y2] =>
        ((y0 =? 0) || (y0 =? 1)) && ((y1 =? 0) || (y1 =? 1))
        && ((y2 =? 0) || (y2 =? 1))
        && (0 <=? s') && (s' <? 64) && (u_for_state s' =? u)
        && (if Z.even sigma
            then (p0 s' =? sigma)
                 && (branch_dist (trellis_out (p0 s') u) y0 y1 y2 =? 0)
                 && (branch_dist (trellis_out (p1 s') u) y0 y1 y2 =? 3)
            else (p1 s' =? sigma)
                 && (branch_dist (trellis_out (p1 s') u) y0 y1 y2 =? 0)
                 && (branch_dist (trellis_out (p0 s') u) y0 y1 y2 =? 3))
    | _ => false
    end) [0; 1].

(** After six input bits the state holds them with the last one on
    the MSB, whatever the state before. *)
Definition chk_final (s : Z) : bool :=
  forallb (fun a => forallb (fun b => forallb (fun c =>
  forallb (fun d => forallb (fun e => forallb (fun f =>
    conv_final_state [a; b; c; d; e; f] s
    =? a + 2 * b + 4 * c + 8 * d + 16 * e + 32 * f)
  [0; 1]) [0; 1]) [0; 1]) [0; 1]) [0; 1]) [0; 1].

(** [agree k s sigma]: the states [s] and [sigma] have the same low
    [6 - k] bits, that is, [s] is reached from the path through [sigma]
    by at most [k] steps. *)
Definition agree (k s sigma : Z) : Prop :=
  s mod 2 ^ (6 - k) = sigma mod 2 ^ (6 - k).

(** The same as a test. *)
Definition agreeb (k s sigma : Z) : bool :=
  s mod 2 ^ (6 - k) =? sigma mod 2 ^ (6 - k).

(** The predecessor of [s] whose lowest bit is that of [sigma]. *)
Definition pred_like (sigma s : Z) : Z :=
  if Z.even sigma then p0 s else p1 s.

(** A state [k >= 1] steps away from the successor of [sigma] has a
    predecessor [k - 1] steps away from [sigma]. *)
Definition chk_agree (sigma : Z) : bool :=
  forallb (fun u => forallb (fun s => forallb (fun k =>
    implb (agreeb k s (conv_next u sigma))
          (agreeb (k - 1) (pred_like sigma s) sigma))
    [1; 2; 3; 4; 5; 6]) (Py.range 64)) [0; 1].

(** Six zero inputs bring every state back to state 0. *)
Definition chk_flush (sigma : Z) : bool :=
  conv_final_state (repeat 0 (Z.to_nat m)) sigma =? 0.

(** Invariant of the path metrics after [t] steps of a noiseless
    reception, the encoder being in state [sigma]: metrics are
    non-negative, and a state [k] steps away from the transmitted path
    has metric at most [3 k], unless it is not yet reachable from the
    start state, in which case its metric is [INF] plus at most [3 t]. *)
Record metrics_inv (t sigma : Z) (M : list Z) : Prop := {
  inv_time : 0 <= t;
  inv_nonneg : forall s, 0 <= s < 64 -> 0 <= Py.get M s;
  inv_reach : forall s k, 0 <= s < 64 -> 0 <= k <= 6 -> agree k s sigma ->
      Py.get M s <= 3 * k \/ (t < k /\ Py.get M s <= INF + 3 * t)
}.

(* ================================================================== *)
(** * Proof tools *)
(* ================================================================== *)

(** Splits a hypothesis that a literal list is a bit array into one
    hypothesis per entry. *)
Ltac split_bit_array :=
  repeat match goal with
         | H : bit_array _ |- _ => unfold bit_array in H
         | H : Forall _ (_ :: _) |- _ => inversion H; subst; clear H
         | H : Forall _ [] |- _ => clear H
         end.

(** Proves that a literal list of zeros and ones is a bit array. *)
Ltac literal_bit_array :=
  unfold bit_array, is_bit; repeat constructor; lia.

Lemma range_forallb (n : nat) (f : Z -> bool) :
  forallb f (Py.range n) = true ->
  forall z, 0 <= z < Z.of_nat n -> f z = true.
Proof.
  intros H z Hz. rewrite forallb_forall in H. apply H.
  unfold Py.range. apply in_map_iff. exists (Z.to_nat z). split.
  - lia.
  - apply in_seq. lia.
Qed.

Lemma bit_forallb (f : Z -> bool) :
  forallb f [0; 1] = true -> forall u, is_bit u -> f u = true.
Proof.
  intros H u [-> | ->]; simpl in H;
    apply andb_prop in H; destruct H as [H0 H1];
    apply andb_prop in H1; destruct H1 as [H1 _]; assumption.
Qed.

Lemma map2_length {A B C} (f : A -> B -> C) (x : list A) (y : list B) :
  length x = length y -> length (Py.map2 f x y) = length x.
Proof.
  revert y. induction x as [| a x IH]; intros [| b y] H; simpl in *;
    try reflexivity; try discriminate.
  f_equal. apply IH. lia.
Qed.


Lemma m_val : m = 6.
Proof. reflexivity. Qed.

Lemma n_states_val : n_states _DEFAULT_CONV = 64.
Proof. reflexivity. Qed.

(* ================================================================== *)
(** * Facts about the trellis established by enumeration *)
(* ================================================================== *)

Lemma chk_pred_all : forallb chk_pred (Py.range 64) = true.
Proof. vm_compute. reflexivity. Qed.

Lemma chk_dist_all : forallb chk_dist (Py.range 64) = true.
Proof. vm_compute. reflexivity. Qed.

Lemma chk_branch_all : forallb chk_branch (Py.range 64) = true.
Proof. vm_compute. reflexivity. Qed.

Lemma chk_agree_all : forallb chk_agree (Py.range 64) = true.
Proof. vm_compute. reflexivity. Qed.

Lemma chk_flush_all : forallb chk_flush (Py.range 64) = true.
Proof. vm_compute. reflexivity. Qed.

Lemma pred_facts (s : Z) :
  0 <= s < 64 ->
  0 <= p0 s < 64 /\ 0 <= p1 s < 64 /\
  Py.wrap_int16 (p0 s) = p0 s /\ Py.wrap_int16 (p1 s) = p1 s /\
  is_bit (u_for_state s).
Proof.
  intros Hs.
  pose proof (range_forallb 64 chk_pred chk_pred_all s Hs) as H.
  unfold chk_pred in H.
  repeat (apply andb_prop in H; destruct H as [H ?]).
  apply orb_prop in H0.
  unfold is_bit. lia.
Qed.

Lemma dist_facts (p u y0 y1 y2 : Z) :
  0 <= p < 64 -> is_bit u -> is_bit y0 -> is_bit y1 -> is_bit y2 ->
  0 <= branch_dist (trellis_out p u) y0 y1 y2 <= 3.
Proof.
  intros Hp Hu H0 H1 H2.
  pose proof (range_forallb 64 chk_dist chk_dist_all p Hp) as H.
  unfold chk_dist in H.
  pose proof (bit_forallb _ H u Hu) as Hu'. cbv beta in Hu'.
  pose proof (bit_forallb _ Hu' y0 H0) as Hy0. cbv beta in Hy0.
  pose proof (bit_forallb _ Hy0 y1 H1) as Hy1. cbv beta in Hy1.
  pose proof (bit_forallb _ Hy1 y2 H2) as Hy2. cbv beta in Hy2.
  apply andb_prop in Hy2. lia.
Qed.

Lemma branch_facts (sigma u : Z) :
  0 <= sigma < 64 -> is_bit u ->
  exists y0 y1 y2,
    conv_out u sigma = [y0; y1; y2] /\
    is_bit y0 /\ is_bit y1 /\ is_bit y2 /\
    0 <= conv_next u sigma < 64 /\
    u_for_state (conv_next u sigma) = u /\
    (if Z.even sigma
     then p0 (conv_next u sigma) = sigma
          /\ branch_dist (trellis_out (p0 (conv_next u sigma)) u) y0 y1 y2 = 0
          /\ branch_dist (trellis_out (p1 (conv_next u sigma)) u) y0 y1 y2 = 3
     else p1 (conv_next u sigma) = sigma
          /\ branch_dist (trellis_out (p1 (conv_next u sigma)) u) y0 y1 y2 = 0
          /\ branch_dist (trellis_out (p0 (conv_next u sigma)) u) y0 y1 y2 = 3).
Proof.
  intros Hs Hu.
  pose proof (range_forallb 64 chk_branch chk_branch_all sigma Hs) as H.
  unfold chk_branch in H.
  pose proof (bit_forallb _ H u Hu) as B. cbv beta zeta in B.
  destruct (conv_out u sigma) as [| y0 [| y1 [| y2 [| ? ?]]]]; try discriminate.
  exists y0, y1, y2. split; [reflexivity |].
  destruct (Z.even sigma);
    repeat (apply andb_prop in B; destruct B as [B ?]);
    repeat match goal with
           | X : (_ || _)%bool = true |- _ => apply orb_prop in X
           end;
    unfold is_bit; repeat split; lia.
Qed.

Lemma agree_pred (sigma u s k : Z) :
  0 <= sigma < 64 -> is_bit u -> 0 <= s < 64 -> 1 <= k <= 6 ->
  agree k s (conv_next u sigma) -> agree (k - 1) (pred_like sigma s) sigma.
Proof.
  intros Hsig Hu Hs Hk Ha.
  pose proof (range_forallb 64 chk_agree chk_agree_all sigma Hsig) as H.
  unfold chk_agree in H.
  pose proof (bit_forallb _ H u Hu) as B. cbv beta in B.
  pose proof (range_forallb 64 _ B s Hs) as C. cbv beta in C.
  rewrite forallb_forall in C.
  assert (Hin : In k [1; 2; 3; 4; 5; 6]) by (simpl; lia).
  specialize (C k Hin). unfold agreeb in C.
  unfold agree in *. apply Z.eqb_eq.
  rewrite (proj2 (Z.eqb_eq _ _) Ha) in C. exact C.
Qed.

(* ================================================================== *)
(** * The Viterbi recursion along the transmitted path *)
(* ================================================================== *)

Lemma wrap_int32_small (x : Z) :
  -2147483648 <= x < 2147483648 -> Py.wrap_int32 x = x.
Proof.
  intros H. unfold Py.wrap_int32. rewrite Z.mod_small; lia.
Qed.

Lemma get_map_states (f : Z -> Z) (s : Z) :
  0 <= s < 64 -> Py.get (map f states) s = f s.
Proof.
  intros Hs. unfold Py.get, states, Py.range.
  rewrite n_states_val. rewrite map_map.
  rewrite nth_indep with (d' := f (Z.of_nat 0)).
  - rewrite (map_nth (fun x => f (Z.of_nat x)) (seq 0 (Z.to_nat 64)) 0%nat).
    rewrite seq_nth by lia. f_equal. lia.
  - rewrite length_map, length_seq. lia.
Qed.

(** What add-compare-select computes when no int32 addition overflows. *)
Lemma acs_exact (M : list Z) (y0 y1 y2 s : Z) :
  0 <= s < 64 -> is_bit y0 -> is_bit y1 -> is_bit y2 ->
  (forall q, 0 <= q < 64 -> 0 <= Py.get M q <= INF + 18) ->
  let c0 := Py.get M (p0 s)
            + branch_dist (trellis_out (p0 s) (u_for_state s)) y0 y1 y2 in
  let c1 := Py.get M (p1 s)
            + branch_dist (trellis_out (p1 s) (u_for_state s)) y0 y1 y2 in
  acs M y0 y1 y2 s =
    (if c1 <? c0 then c1 else c0, if c1 <? c0 then p1 s else p0 s)
  /\ 0 <= c0 <= INF + 21 /\ 0 <= c1 <= INF + 21.
Proof.
  intros Hs H0 H1 H2 HM c0 c1.
  destruct (pred_facts s Hs) as (Hp0 & Hp1 & W0 & W1 & Hu).
  pose proof (dist_facts (p0 s) _ y0 y1 y2 Hp0 Hu H0 H1 H2) as D0.
  pose proof (dist_facts (p1 s) _ y0 y1 y2 Hp1 Hu H0 H1 H2) as D1.
  pose proof (HM _ Hp0) as M0. pose proof (HM _ Hp1) as M1.
  assert (B0 : 0 <= c0 <= INF + 21) by (unfold c0; lia).
  assert (B1 : 0 <= c1 <= INF + 21) by (unfold c1; lia).
  split; [| split; assumption].
  unfold acs. fold c0 c1.
  assert (I : INF = 1000000000) by reflexivity.
  rewrite (wrap_int32_small c0) by lia.
  rewrite (wrap_int32_small c1) by lia.
  destruct (c1 <? c0).
  - rewrite wrap_int32_small by lia. rewrite W1. reflexivity.
  - rewrite wrap_int32_small by lia. rewrite W0. reflexivity.
Qed.

Lemma metrics_inv_bounds t sigma M :
  metrics_inv t sigma M ->
  forall q, 0 <= q < 64 -> 0 <= Py.get M q <= INF + 18.
Proof.
  intros [Ht Hn Hr] q Hq. split; [apply Hn; assumption|].
  assert (I : INF = 1000000000) by reflexivity.
  destruct (Hr q 6) as [H | [H1 H2]]; try lia.
  unfold agree. replace (6 - 6) with 0 by lia.
  change (2 ^ 0) with 1. rewrite !Z.mod_1_r. reflexivity.
Qed.

Lemma metrics_inv_on_path t sigma M :
  metrics_inv t sigma M -> 0 <= sigma < 64 -> Py.get M sigma = 0.
Proof.
  intros [Ht Hn Hr] Hs.
  pose proof (Hn sigma Hs).
  destruct (Hr sigma 0) as [H0 | [H1 H2]]; try lia.
  reflexivity.
Qed.

Lemma initial_metrics_inv : metrics_inv 0 0 initial_metrics.
Proof.
  assert (G : forall s, 0 <= s < 64 ->
            Py.get initial_metrics s = if s =? 0 then 0 else INF).
  { intros s Hs.
    pose proof (range_forallb 64
      (fun s => Py.get initial_metrics s =? (if s =? 0 then 0 else INF))) as R.
    apply Z.eqb_eq. apply R; [vm_compute; reflexivity | assumption]. }
  assert (I : INF = 1000000000) by reflexivity.
  constructor.
  - lia.
  - intros s Hs. rewrite (G s Hs). destruct (s =? 0); lia.
  - intros s k Hs Hk Ha. rewrite (G s Hs).
    destruct (Z.eqb_spec s 0) as [-> | Hne]; [left; lia |].
    right. split; [| lia].
    destruct (Z.eq_dec k 0) as [-> | ]; [| lia].
    exfalso. apply Hne. unfold agree in Ha.
    change (2 ^ (6 - 0)) with 64 in Ha.
    rewrite Z.mod_small in Ha by lia. rewrite Ha. reflexivity.
Qed.

(** One step of the recursion on the triple the encoder emitted keeps the
    invariant and records the encoder's previous state as the predecessor
    of its new state. *)
Lemma viterbi_step_inv (t sigma u : Z) (M : list Z) :
  metrics_inv t sigma M -> 0 <= sigma < 64 -> is_bit u ->
  exists y0 y1 y2,
    conv_out u sigma = [y0; y1; y2] /\
    metrics_inv (t + 1) (conv_next u sigma) (fst (viterbi_step M y0 y1 y2)) /\
    Py.get (snd (viterbi_step M y0 y1 y2)) (conv_next u sigma) = sigma /\
    0 <= conv_next u sigma < 64 /\
    u_for_state (conv_next u sigma) = u.
Proof.
  intros HI Hsig Hu.
  destruct (branch_facts sigma u Hsig Hu)
    as (y0 & y1 & y2 & Hout & B0 & B1 & B2 & Hn & Hus & Hbr).
  exists y0, y1, y2. split; [exact Hout |].
  pose proof (metrics_inv_bounds _ _ _ HI) as HB.
  pose proof (metrics_inv_on_path _ _ _ HI Hsig) as Hz.
  assert (I : INF = 1000000000) by reflexivity.
  set (s' := conv_next u sigma) in *.
  assert (Hfst : forall s, 0 <= s < 64 ->
            Py.get (fst (viterbi_step M y0 y1 y2)) s = fst (acs M y0 y1 y2 s)).
  { intros s Hs. unfold viterbi_step. cbn [fst]. rewrite map_map.
    apply (get_map_states (fun x => fst (acs M y0 y1 y2 x))). exact Hs. }
  assert (Hsnd : forall s, 0 <= s < 64 ->
            Py.get (snd (viterbi_step M y0 y1 y2)) s = snd (acs M y0 y1 y2 s)).
  { intros s Hs. unfold viterbi_step. cbn [snd]. rewrite map_map.
    apply (get_map_states (fun x => snd (acs M y0 y1 y2 x))). exact Hs. }
  (* the new state of the encoder *)
  assert (Hpath : acs M y0 y1 y2 s' = (0, sigma)).
  { destruct (acs_exact M y0 y1 y2 s' Hn B0 B1 B2 HB) as (E & C0 & C1).
    rewrite E. rewrite Hus in *.
    destruct (pred_facts s' Hn) as (Hp0 & Hp1 & _).
    pose proof (HB _ Hp0) as M0. pose proof (HB _ Hp1) as M1.
    destruct (Z.even sigma); destruct Hbr as (Ep & D0 & D3).
    - rewrite Ep in *. rewrite D0, D3 in *. rewrite Hz in *.
      destruct (Z.ltb_spec (Py.get M (p1 s') + 3) (0 + 0)); [lia |].
      reflexivity.
    - rewrite Ep in *. rewrite D0, D3 in *. rewrite Hz in *.
      destruct (Z.ltb_spec (0 + 0) (Py.get M (p0 s') + 3)); [| lia].
      reflexivity. }
  split; [| split; [| split; [exact Hn | exact Hus]]].
  - constructor.
    + destruct HI. lia.
    + intros s Hs. rewrite (Hfst s Hs).
      destruct (acs_exact M y0 y1 y2 s Hs B0 B1 B2 HB) as (E & C0 & C1).
      rewrite E. cbn [fst].
      match goal with |- context [if ?c then _ else _] => destruct c end; lia.
    + intros s k Hs Hk Ha. rewrite (Hfst s Hs).
      destruct (Z.eq_dec k 0) as [-> | Hk0].
      * assert (s = s').
        { unfold agree in Ha. change (2 ^ (6 - 0)) with 64 in Ha.
          rewrite !Z.mod_small in Ha by lia. exact Ha. }
        subst s. rewrite Hpath. cbn [fst]. left. lia.
      * assert (Hk1 : 1 <= k <= 6) by lia.
        pose proof (agree_pred sigma u s k Hsig Hu Hs Hk1 Ha) as Hp.
        destruct (acs_exact M y0 y1 y2 s Hs B0 B1 B2 HB) as (E & C0 & C1).
        rewrite E. cbn [fst].
        destruct (pred_facts s Hs) as (Hp0 & Hp1 & _ & _ & Hub).
        pose proof (dist_facts (p0 s) _ y0 y1 y2 Hp0 Hub B0 B1 B2) as D0.
        pose proof (dist_facts (p1 s) _ y0 y1 y2 Hp1 Hub B0 B1 B2) as D1.
        assert (Hq : 0 <= pred_like sigma s < 64)
          by (unfold pred_like; destruct (Z.even sigma); assumption).
        destruct HI as [Ht _ Hr].
        assert (Hk' : 0 <= k - 1 <= 6) by lia.
        pose proof (Hr (pred_like sigma s) (k - 1) Hq Hk' Hp) as Hcase.
        unfold pred_like in Hcase.
        match goal with |- context [if ?c then _ else _] =>
          destruct (Z.ltb_spec
            (Py.get M (p1 s)
             + branch_dist (trellis_out (p1 s) (u_for_state s)) y0 y1 y2)
            (Py.get M (p0 s)
             + branch_dist (trellis_out (p0 s) (u_for_state s)) y0 y1 y2))
        end; destruct (Z.even sigma); lia.
  - rewrite (Hsnd s' Hn). rewrite Hpath. reflexivity.
Qed.

Lemma traceback_app (r1 r2 : list (list Z)) (s : Z) :
  traceback (r1 ++ r2) s = traceback r1 s ++ traceback r2 (traceback_state r1 s).
Proof.
  revert s. induction r1 as [| row r1 IH]; intros s; simpl.
  - reflexivity.
  - rewrite IH. reflexivity.
Qed.

Lemma traceback_state_app (r1 r2 : list (list Z)) (s : Z) :
  traceback_state (r1 ++ r2) s = traceback_state r2 (traceback_state r1 s).
Proof.
  revert s. induction r1 as [| row r1 IH]; intros s; simpl.
  - reflexivity.
  - apply IH.
Qed.

(** Decoding what the encoder emitted from state [sigma]: the traceback
    started in the encoder's final state walks the encoder's states
    backwards and reads off the encoder's input. *)
Lemma viterbi_follows_encoder (in_bits : list Z) :
  forall (t sigma : Z) (M : list Z),
    bit_array in_bits -> 0 <= sigma < 64 -> metrics_inv t sigma M ->
    let rows := viterbi_forward (conv_loop in_bits sigma) M in
    traceback (rev rows) (conv_final_state in_bits sigma) = rev in_bits
    /\ traceback_state (rev rows) (conv_final_state in_bits sigma) = sigma.
Proof.
  induction in_bits as [| u rest IH]; intros t sigma M Hbits Hsig HI.
  - simpl. split; reflexivity.
  - inversion Hbits as [| ? ? Hu Hrest]; subst.
    destruct (viterbi_step_inv t sigma u M HI Hsig Hu)
      as (y0 & y1 & y2 & Hout & HI' & Hprev & Hn & Hus).
    cbn [conv_loop conv_final_state]. rewrite Hout.
    cbn [app viterbi_forward rev].
    specialize (IH (t + 1) (conv_next u sigma)
                   (fst (viterbi_step M y0 y1 y2)) Hrest Hn HI').
    cbv zeta in IH. destruct IH as [IHt IHs].
    rewrite traceback_app, traceback_state_app, IHt, IHs.
    cbn [traceback traceback_state]. rewrite Hprev.
    split; [| reflexivity].
    f_equal. unfold u_for_state in Hus. rewrite Hus. reflexivity.
Qed.

Lemma conv_next_range (u s : Z) : 0 <= conv_next u s < 64.
Proof.
  unfold conv_next. rewrite m_val. change (Z.shiftl 1 6 - 1) with (Z.ones 6).
  rewrite Z.land_ones by lia. change (2 ^ 6) with 64.
  apply Z.mod_pos_bound. lia.
Qed.

Lemma conv_final_state_app (l1 l2 : list Z) (s : Z) :
  conv_final_state (l1 ++ l2) s = conv_final_state l2 (conv_final_state l1 s).
Proof.
  revert s. induction l1 as [| u l1 IH]; intros s; simpl; [reflexivity | apply IH].
Qed.

Lemma conv_final_state_range (l : list Z) (s : Z) :
  0 <= s < 64 -> 0 <= conv_final_state l s < 64.
Proof.
  revert s. induction l as [| u l IH]; intros s Hs; simpl.
  - exact Hs.
  - apply IH. apply conv_next_range.
Qed.

(** Termination forces the encoder back to state 0. *)
Lemma terminated_final_state (bits : list Z) :
  conv_final_state (bits ++ repeat 0 (Z.to_nat m)) 0 = 0.
Proof.
  rewrite conv_final_state_app.
  pose proof (conv_final_state_range bits 0 ltac:(lia)) as Hr.
  pose proof (range_forallb 64 chk_flush chk_flush_all _ Hr) as H.
  unfold chk_flush in H. apply Z.eqb_eq. exact H.
Qed.

Lemma conv_out_length (u s : Z) : length (conv_out u s) = 3%nat.
Proof. unfold conv_out. rewrite length_map. reflexivity. Qed.

Lemma conv_loop_length (in_bits : list Z) (s : Z) :
  length (conv_loop in_bits s) = (3 * length in_bits)%nat.
Proof.
  revert s. induction in_bits as [| u rest IH]; intros s; cbn [conv_loop length].
  - reflexivity.
  - rewrite length_app, conv_out_length, IH. lia.
Qed.

Lemma viterbi_forward_length (in_bits : list Z) (s : Z) (M : list Z) :
  length (viterbi_forward (conv_loop in_bits s) M) = length in_bits.
Proof.
  revert s M. induction in_bits as [| u rest IH]; intros s M.
  - reflexivity.
  - cbn [conv_loop]. pose proof (conv_out_length u s) as L.
    destruct (conv_out u s) as [| y0 [| y1 [| y2 [| ? ?]]]]; try discriminate.
    cbn [app viterbi_forward length]. rewrite IH. reflexivity.
Qed.

Lemma bit_array_zeros (n : nat) : bit_array (repeat 0 n).
Proof.
  induction n; simpl; constructor; [left; reflexivity | assumption].
Qed.

Lemma slice_to_neg_app (l tail_ : list Z) :
  tail_ <> [] ->
  Py.slice_to (- Z.of_nat (length tail_)) (l ++ tail_) = l.
Proof.
  intros Hne. unfold Py.slice_to, Py.bound.
  assert (0 < length tail_)%nat by (destruct tail_; [congruence | simpl; lia]).
  destruct (Z.ltb_spec (- Z.of_nat (length tail_)) 0); [| lia].
  rewrite length_app.
  replace (Z.to_nat (Z.max 0 (Z.of_nat (length l + length tail_)
                              + - Z.of_nat (length tail_))))
    with (length l + 0)%nat by lia.
  rewrite firstn_app_2. simpl. apply app_nil_r.
Qed.

(** C1. Decoding the terminated encoding of a bit array, with no bit
    changed between encoder and decoder and the tail dropped, gives the
    bit array back:
    [conv_decode_terminated(conv_encode(b, terminate=True,
    tail_biting=False), drop_tail=True) == b]. *)
Theorem conv_decode_encode_terminated (b : list Z) :
  bit_array b ->
  conv_decode_terminated (conv_encode b true false) true = b.
Proof.
  intros Hb.
  unfold conv_encode, conv_in_bits, conv_init_state. cbn [andb negb].
  set (in_bits := b ++ repeat 0 (Z.to_nat m)).
  assert (Hin : bit_array in_bits).
  { unfold in_bits, bit_array. apply Forall_app. split;
      [exact Hb | apply bit_array_zeros]. }
  unfold conv_decode_terminated.
  rewrite conv_loop_length.
  assert (Hmod : Z.of_nat (3 * length in_bits) mod 3 = 0).
  { rewrite Nat2Z.inj_mul. rewrite Z.mul_comm. apply Z.mod_mul. lia. }
  rewrite Hmod. cbn [Z.eqb negb].
  rewrite conv_loop_length.
  assert (Hsteps : Z.of_nat (3 * length in_bits) / 3 = Z.of_nat (length in_bits)).
  { rewrite Nat2Z.inj_mul. rewrite Z.mul_comm. apply Z.div_mul. lia. }
  rewrite Hsteps.
  assert (Hlen : length in_bits = (length b + 6)%nat).
  { unfold in_bits. rewrite length_app, repeat_length. reflexivity. }
  destruct (Z.leb_spec m (Z.of_nat (length in_bits))) as [_ | Hlt];
    [| rewrite m_val in Hlt; lia].
  cbn [andb].
  pose proof (viterbi_follows_encoder in_bits 0 0 initial_metrics
                Hin ltac:(lia) initial_metrics_inv) as [Ht _].
  unfold in_bits in Ht at 2. rewrite terminated_final_state in Ht.
  rewrite Ht. rewrite rev_involutive.
  unfold in_bits.
  replace (- m) with (- Z.of_nat (length (repeat 0 (Z.to_nat m))))
    by (rewrite repeat_length; reflexivity).
  apply slice_to_neg_app. discriminate.
Qed.

Lemma conv_decode_encode_terminated_witness :
  bit_array [1; 0; 1; 1; 0; 0; 1] /\
  conv_decode_terminated (conv_encode [1; 0; 1; 1; 0; 0; 1] true false) true
  = [1; 0; 1; 1; 0; 0; 1].
Proof.
  assert (H : bit_array [1; 0; 1; 1; 0; 0; 1]) by literal_bit_array.
  split; [exact H | exact (conv_decode_encode_terminated _ H)].
Defined.

(* ================================================================== *)
(** * Encoder: output length and initial state *)
(* ================================================================== *)

(** C5 (as the code has it). The encoder emits three bits per bit of its
    loop input; the six tail zeros are appended only when [terminate] is
    set and [tail_biting] is not, so the output length is
    [3 * (len + 6)] in that case and [3 * len] in every other. *)
Theorem conv_encode_length (bits : list Z) (terminate tail_biting : bool) :
  length (conv_encode bits terminate tail_biting) =
  (3 * (length bits + (if terminate && negb tail_biting then 6 else 0)))%nat.
Proof.
  unfold conv_encode, conv_in_bits. rewrite conv_loop_length.
  destruct (terminate && negb tail_biting).
  - rewrite length_app, repeat_length. reflexivity.
  - f_equal. lia.
Qed.

(** C5 as stated fails: with [terminate] and [tail_biting] both set, a
    one-bit input is encoded into 3 bits, not into [3 * (1 + 6)]. *)
Lemma tail_biting_encoding_has_no_tail :
  length (conv_encode [1] true true) = 3%nat /\
  length (conv_encode [1] true true) <> (3 * (length [1] + 6))%nat.
Proof. split; [reflexivity | vm_compute; discriminate]. Qed.

Lemma slice_from_last_length (bits : list Z) :
  (6 <= length bits)%nat -> length (Py.slice_from (- m) bits) = 6%nat.
Proof.
  intros H. unfold Py.slice_from, Py.bound. rewrite m_val.
  cbn [Z.opp Z.ltb Z.compare]. rewrite length_skipn. lia.
Qed.

Lemma slice_from_bit_array (i : Z) (bits : list Z) :
  bit_array bits -> bit_array (Py.slice_from i bits).
Proof.
  intros H. unfold Py.slice_from, bit_array in *.
  rewrite <- (firstn_skipn (Py.bound (length bits) i) bits) in H.
  apply Forall_app in H. apply H.
Qed.

(** The seeding loop on six bits, as a number. The first of the six bits
    lands on bit 5 of the state and the last one on bit 0. *)
Lemma conv_init_state_value (bits : list Z) :
  bit_array bits -> (6 <= length bits)%nat ->
  exists a b c d e f,
    Py.slice_from (- m) bits = [a; b; c; d; e; f] /\
    bit_array [a; b; c; d; e; f] /\
    conv_init_state bits true = 32 * a + 16 * b + 8 * c + 4 * d + 2 * e + f.
Proof.
  intros Hb Hlen.
  pose proof (slice_from_last_length bits Hlen) as L6.
  pose proof (slice_from_bit_array (- m) bits Hb) as B6.
  unfold conv_init_state.
  destruct (Z.leb_spec m (Z.of_nat (length bits))) as [_ | Hlt];
    [| rewrite m_val in Hlt; lia].
  cbn [andb].
  destruct (Py.slice_from (- m) bits)
    as [| a [| b [| c [| d [| e [| f [| ? ?]]]]]]]; try discriminate.
  exists a, b, c, d, e, f. split; [reflexivity |]. split; [exact B6 |].
  split_bit_array.
  repeat match goal with
         | H : is_bit _ |- _ => destruct H; subst
         end; reflexivity.
Qed.

(** C6 (as the code has it, the order of the seeded bits left open).
    Without tail-biting, and with tail-biting on an input of fewer than
    six bits, the initial state is zero. With tail-biting on a bit array
    of at least six bits the initial state is a 6-bit value seeded from
    the last six input bits and from nothing else: two such inputs start
    in the same state exactly when their last six bits are the same. *)
Theorem conv_init_state_seeded (bits : list Z) (tail_biting : bool) :
  (tail_biting = false \/ (length bits < 6)%nat ->
   conv_init_state bits tail_biting = 0) /\
  (tail_biting = true -> bit_array bits -> (6 <= length bits)%nat ->
   0 <= conv_init_state bits tail_biting < 64 /\
   forall bits', bit_array bits' -> (6 <= length bits')%nat ->
     (conv_init_state bits' true = conv_init_state bits tail_biting
      <-> Py.slice_from (- m) bits' = Py.slice_from (- m) bits)).
Proof.
  split.
  - intros [-> | Hlt]; [reflexivity |].
    unfold conv_init_state.
    destruct (Z.leb_spec m (Z.of_nat (length bits))) as [Hle | _];
      [rewrite m_val in Hle; lia |].
    rewrite andb_false_r. reflexivity.
  - intros -> Hb Hlen.
    destruct (conv_init_state_value bits Hb Hlen)
      as (a & b & c & d & e & f & Hs & HB & Hv).
    assert (R : forall x, is_bit x -> 0 <= x <= 1) by (intros x [-> | ->]; lia).
    clear Hb. split_bit_array.
    repeat match goal with
           | H : is_bit _ |- _ => apply R in H
           end.
    split; [lia |].
    intros bits' Hb' Hlen'.
    destruct (conv_init_state_value bits' Hb' Hlen')
      as (a' & b' & c' & d' & e' & f' & Hs' & HB' & Hv').
    clear Hb'. split_bit_array.
    repeat match goal with
           | H : is_bit _ |- _ => apply R in H
           end.
    rewrite Hs, Hs', Hv, Hv'. split.
    + intros E.
      assert (a' = a /\ b' = b /\ c' = c /\ d' = d /\ e' = e /\ f' = f) by lia.
      intuition congruence.
    + intros E. injection E as -> -> -> -> -> ->. reflexivity.
Qed.

Lemma conv_init_state_seeded_witness :
  bit_array [1; 0; 1; 1; 0; 0; 1] /\
  (6 <= length [1; 0; 1; 1; 0; 0; 1])%nat /\
  0 <= conv_init_state [1; 0; 1; 1; 0; 0; 1] true < 64.
Proof.
  assert (H : bit_array [1; 0; 1; 1; 0; 0; 1]) by literal_bit_array.
  assert (L : (6 <= length [1; 0; 1; 1; 0; 0; 1])%nat) by (simpl; lia).
  split; [exact H |]. split; [exact L |].
  exact (proj1 (proj2 (conv_init_state_seeded [1; 0; 1; 1; 0; 0; 1] true)
                  eq_refl H L)).
Defined.

(** The encoder's own convention, for comparison: after six input bits
    the state holds the last bit on its MSB and the first on its LSB, the
    mirror image of the value the seeding loop computes. *)
Lemma conv_final_state_value (s a b c d e f : Z) :
  0 <= s < 64 -> bit_array [a; b; c; d; e; f] ->
  conv_final_state [a; b; c; d; e; f] s
  = a + 2 * b + 4 * c + 8 * d + 16 * e + 32 * f.
Proof.
  intros Hs HB. unfold bit_array in HB. rewrite Forall_forall in HB.
  assert (H : forallb chk_final (Py.range 64) = true)
    by (vm_compute; reflexivity).
  pose proof (range_forallb 64 chk_final H s Hs) as Hc. unfold chk_final in Hc.
  pose proof (bit_forallb _ Hc a (HB a ltac:(simpl; tauto))) as Ha. cbv beta in Ha.
  pose proof (bit_forallb _ Ha b (HB b ltac:(simpl; tauto))) as Hb. cbv beta in Hb.
  pose proof (bit_forallb _ Hb c (HB c ltac:(simpl; tauto))) as Hc'. cbv beta in Hc'.
  pose proof (bit_forallb _ Hc' d (HB d ltac:(simpl; tauto))) as Hd. cbv beta in Hd.
  pose proof (bit_forallb _ Hd e (HB e ltac:(simpl; tauto))) as He. cbv beta in He.
  pose proof (bit_forallb _ He f (HB f ltac:(simpl; tauto))) as Hf. cbv beta in Hf.
  apply Z.eqb_eq. exact Hf.
Qed.

(** C6 as stated fails. On a three-bit input with tail-biting the state
    is zero although the last bit is 1; and on a six-bit input whose last
    bit is the only 1 the state is 1: the last bit sits on the lowest
    bit of the state, and bit 5, the MSB, is clear. *)
Lemma conv_init_state_last_bit_not_msb :
  (conv_init_state [1; 1; 1] true = 0 /\
   Z.testbit (conv_init_state [1; 1; 1] true) (m - 1)
   <> (last [1; 1; 1] 0 =? 1)) /\
  (conv_init_state [0; 0; 0; 0; 0; 1] true = 1 /\
   Z.testbit (conv_init_state [0; 0; 0; 0; 0; 1] true) (m - 1)
   <> (last [0; 0; 0; 0; 0; 1] 0 =? 1)).
Proof. vm_compute. repeat split; discriminate. Qed.

(** The encoder state after a whole input has the last bit on its MSB;
    the state seeded for tail-biting is its mirror image, so the trellis
    of [0,0,0,0,0,1] starts in state 1 and ends in state 32. *)
Lemma tail_biting_start_differs_from_end :
  conv_init_state [0; 0; 0; 0; 0; 1] true = 1 /\
  conv_final_state [0; 0; 0; 0; 0; 1] (conv_init_state [0; 0; 0; 0; 0; 1] true)
  = 32.
Proof. split; reflexivity. Qed.

(* ================================================================== *)
(** * CRC: check after attach *)
(* ================================================================== *)

Lemma crc_degree_cases (crc : CRCName) :
  fst (_CRC_POLYS crc) = 8 \/ fst (_CRC_POLYS crc) = 16
  \/ fst (_CRC_POLYS crc) = 24.
Proof. destruct crc; cbn; auto. Qed.

Lemma crc_parity_length (L reg : Z) :
  length (crc_parity L reg) = Z.to_nat L.
Proof.
  unfold crc_parity, Py.range. rewrite !length_map, length_seq. reflexivity.
Qed.

Lemma crc_attach_length (bits : list Z) (crc : CRCName) :
  length (crc_attach bits crc)
  = (length bits + Z.to_nat (fst (_CRC_POLYS crc)))%nat.
Proof.
  unfold crc_attach. destruct (_CRC_POLYS crc) as [L poly]. cbn [fst].
  rewrite length_app, crc_parity_length. reflexivity.
Qed.

(** The payload half of the round trip holds for every input: the check
    strips exactly the parity bits that attach appended. *)
Lemma crc_check_attach_payload (bits : list Z) (crc : CRCName) :
  fst (crc_check (crc_attach bits crc) crc) = bits.
Proof.
  pose proof (crc_attach_length bits crc) as Hlen.
  pose proof (crc_degree_cases crc) as HL.
  unfold crc_check. unfold crc_attach in *.
  destruct (_CRC_POLYS crc) as [L poly]. cbn [fst] in *.
  destruct (Z.ltb_spec (Z.of_nat (length (bits ++ crc_parity L
              (crc_flush L poly (crc_register L poly bits 0))))) L) as [Hlt | _].
  - rewrite Hlen in Hlt. lia.
  - cbn [fst].
    set (parity := crc_parity L (crc_flush L poly (crc_register L poly bits 0))).
    assert (HP : length parity = Z.to_nat L) by apply crc_parity_length.
    replace (- L) with (- Z.of_nat (length parity)) by lia.
    apply slice_to_neg_app.
    intros E. rewrite E in HP. simpl in HP. lia.
Qed.

(** C2 fails on the code. The one-bit message [1] with CRC24A attached is
    rejected by the check: the payload comes back, the flag is false.
    The second loop of [crc_attach] shifts the register by [L] further
    steps although the message loop already left the remainder of
    [M(D) * D^L] in it, so the appended parity is not the CRC of the
    message and the register of [crc_check] does not end at zero. *)
Theorem crc_check_attach_rejects :
  crc_check (crc_attach [1] CRC24A) CRC24A = ([1], false).
Proof. vm_compute. reflexivity. Qed.

(** The same happens with each of the four polynomials. *)
Lemma crc_attach_rejected_for_every_polynomial (crc : CRCName) :
  crc_check (crc_attach [1] crc) crc = ([1], false).
Proof. destruct crc; vm_compute; reflexivity. Qed.

Lemma land_shiftr_1 (x n : Z) :
  0 <= n -> Z.land (Z.shiftr x n) 1 = Z.b2z (Z.testbit x n).
Proof.
  intros Hn. change 1 with (Z.ones 1). rewrite Z.land_ones by lia.
  change (2 ^ 1) with 2. rewrite <- Z.bit0_mod.
  rewrite Z.shiftr_spec by lia. reflexivity.
Qed.

Lemma crc_step_range (L poly reg b : Z) :
  0 < L -> 0 <= poly < 2 ^ L -> 0 <= crc_step L poly reg b < 2 ^ L.
Proof.
  intros HL Hp. unfold crc_step.
  assert (Hm : Z.shiftl 1 L - 1 = Z.ones L).
  { rewrite Z.ones_equiv, Z.shiftl_1_l. lia. }
  rewrite Hm. rewrite Z.land_ones by lia.
  pose proof (Z.mod_pos_bound (Z.shiftl reg 1) (2 ^ L) ltac:(lia)) as Hr.
  destruct (_ =? 0); [exact Hr |].
  set (x := Z.shiftl reg 1 mod 2 ^ L) in *.
  split.
  - apply Z.lxor_nonneg. lia.
  - destruct (Z.eq_dec (Z.lxor x poly) 0) as [-> | Hne]; [lia |].
    apply Z.log2_lt_pow2; [pose proof (proj2 (Z.lxor_nonneg x poly)); lia |].
    eapply Z.le_lt_trans; [apply Z.log2_lxor; lia |].
    apply Z.max_lub_lt.
    + destruct (Z.eq_dec x 0) as [-> | ]; [simpl; lia |].
      apply Z.log2_lt_pow2; lia.
    + destruct (Z.eq_dec poly 0) as [-> | ]; [simpl; lia |].
      apply Z.log2_lt_pow2; lia.
Qed.

Lemma crc_register_range (L poly : Z) (bits : list Z) (reg : Z) :
  0 < L -> 0 <= poly < 2 ^ L -> 0 <= reg < 2 ^ L ->
  0 <= crc_register L poly bits reg < 2 ^ L.
Proof.
  intros HL Hp. revert reg. unfold crc_register.
  induction bits as [| b bits IH]; intros reg Hr; cbn [fold_left].
  - exact Hr.
  - apply IH. apply crc_step_range; assumption.
Qed.

(** Feeding a register its own bits, MSB first, shifts it out to zero. *)
Lemma crc_register_own_bits (L poly r : Z) (k : nat) :
  0 < L -> (k <= Z.to_nat L)%nat ->
  let i := L - Z.of_nat k in
  crc_register L poly
    (map (fun j => Z.land (Z.shiftr r (L - 1 - j)) 1)
         (map Z.of_nat (seq (Z.to_nat i) k)))
    ((r * 2 ^ i) mod 2 ^ L) = 0.
Proof.
  intros HL. induction k as [| k IH]; intros Hk i.
  - subst i. cbn [seq map]. unfold crc_register. cbn [fold_left].
    rewrite Z.sub_0_r. apply Z.mod_mul. lia.
  - assert (Hi : 0 <= i) by (subst i; lia).
    cbn [seq map]. unfold crc_register. cbn [fold_left].
    fold (crc_register L poly).
    rewrite Z2Nat.id by lia.
    assert (Hstep : crc_step L poly ((r * 2 ^ i) mod 2 ^ L)
                      (Z.land (Z.shiftr r (L - 1 - i)) 1)
                    = (r * 2 ^ (i + 1)) mod 2 ^ L).
    { unfold crc_step.
      rewrite !land_shiftr_1 by lia.
      rewrite Z.mod_pow2_bits_low by lia.
      rewrite Z.mul_pow2_bits by lia.
      replace (L - 1 - i) with (L - 1 - i) by lia.
      rewrite Z.lxor_nilpotent. cbn [Z.eqb].
      assert (Hm : Z.shiftl 1 L - 1 = Z.ones L).
      { rewrite Z.ones_equiv, Z.shiftl_1_l. lia. }
      rewrite Hm, Z.land_ones by lia.
      rewrite Z.shiftl_mul_pow2 by lia. change (2 ^ 1) with 2.
      rewrite Z.mul_mod_idemp_l by lia.
      f_equal. rewrite Z.pow_add_r by lia. change (2 ^ 1) with 2. lia. }
    rewrite Hstep.
    specialize (IH ltac:(lia)). cbv zeta in IH.
    replace (L - Z.of_nat k) with (i + 1) in IH by (subst i; lia).
    replace (S (Z.to_nat i)) with (Z.to_nat (i + 1)) by lia.
    exact IH.
Qed.

Lemma crc_register_app (L poly : Z) (a b : list Z) (reg : Z) :
  crc_register L poly (a ++ b) reg
  = crc_register L poly b (crc_register L poly a reg).
Proof. unfold crc_register. apply fold_left_app. Qed.

Lemma crc_poly_range (crc : CRCName) :
  0 < fst (_CRC_POLYS crc)
  /\ 0 <= snd (_CRC_POLYS crc) < 2 ^ fst (_CRC_POLYS crc).
Proof. destruct crc; vm_compute; repeat split; congruence. Qed.

(** The check accepts every message followed by the register the message
    loop leaves, that is, by its CRC: the check itself is the standard
    one, and the rejected round trip comes from the second loop of
    [crc_attach]. *)
Lemma crc_check_accepts_message_crc (bits : list Z) (crc : CRCName) :
  let L := fst (_CRC_POLYS crc) in
  let poly := snd (_CRC_POLYS crc) in
  crc_check (bits ++ crc_parity L (crc_register L poly bits 0)) crc
  = (bits, true).
Proof.
  intros L poly. subst L poly.
  destruct (crc_poly_range crc) as [HL Hp].
  unfold crc_check.
  destruct (_CRC_POLYS crc) as [L poly]. cbn [fst snd] in *.
  pose proof (crc_register_range L poly bits 0 HL Hp ltac:(lia)) as Hr.
  set (r := crc_register L poly bits 0) in *.
  rewrite length_app, crc_parity_length.
  destruct (Z.ltb_spec (Z.of_nat (length bits + Z.to_nat L)) L); [lia |].
  f_equal.
  - pose proof (crc_parity_length L r) as HP.
    replace (- L) with (- Z.of_nat (length (crc_parity L r))) by lia.
    apply slice_to_neg_app. intros E0. rewrite E0 in HP. simpl in HP. lia.
  - apply Z.eqb_eq. rewrite crc_register_app. fold r.
    pose proof (crc_register_own_bits L poly r (Z.to_nat L) HL ltac:(lia)) as H0.
    cbv zeta in H0.
    replace (L - Z.of_nat (Z.to_nat L)) with 0 in H0 by lia.
    change (Z.to_nat 0) with 0%nat in H0.
    rewrite Z.pow_0_r, Z.mul_1_r, Z.mod_small in H0 by lia.
    exact H0.
Qed.

(** C8. An input shorter than the degree [L] of the named polynomial is
    rejected; for an input of at least [L] entries the flag is true
    exactly when the register, after the loop over the whole input, is
    zero. *)
Theorem crc_check_ok (bits_with_crc : list Z) (crc : CRCName) :
  let L := fst (_CRC_POLYS crc) in
  let poly := snd (_CRC_POLYS crc) in
  (Z.of_nat (length bits_with_crc) < L ->
   snd (crc_check bits_with_crc crc) = false) /\
  (L <= Z.of_nat (length bits_with_crc) ->
   (snd (crc_check bits_with_crc crc) = true
    <-> crc_register L poly bits_with_crc 0 = 0)).
Proof.
  unfold crc_check. destruct (_CRC_POLYS crc) as [L poly]. cbn [fst snd].
  split; intros H.
  - destruct (Z.ltb_spec (Z.of_nat (length bits_with_crc)) L); [reflexivity | lia].
  - destruct (Z.ltb_spec (Z.of_nat (length bits_with_crc)) L); [lia |].
    cbn [snd]. apply Z.eqb_eq.
Qed.

Lemma crc_check_ok_witness :
  (Z.of_nat (length [1; 0; 1]) < fst (_CRC_POLYS CRC8) /\
   snd (crc_check [1; 0; 1] CRC8) = false) /\
  (fst (_CRC_POLYS CRC8) <= Z.of_nat (length [1; 1; 0; 0; 1; 1; 0; 1; 1]) /\
   (snd (crc_check [1; 1; 0; 0; 1; 1; 0; 1; 1] CRC8) = true
    <-> crc_register 8 (snd (_CRC_POLYS CRC8)) [1; 1; 0; 0; 1; 1; 0; 1; 1] 0 = 0)).
Proof.
  assert (H1 : Z.of_nat (length [1; 0; 1]) < fst (_CRC_POLYS CRC8))
    by (vm_compute; reflexivity).
  assert (H2 : fst (_CRC_POLYS CRC8)
               <= Z.of_nat (length [1; 1; 0; 0; 1; 1; 0; 1; 1]))
    by (vm_compute; discriminate).
  split.
  - split; [exact H1 | exact (proj1 (crc_check_ok [1; 0; 1] CRC8) H1)].
  - split; [exact H2 |
            exact (proj2 (crc_check_ok [1; 1; 0; 0; 1; 1; 0; 1; 1] CRC8) H2)].
Defined.

(* ================================================================== *)
(** * Cyclic prefix: removal after insertion *)
(* ================================================================== *)

Section CyclicPrefixProofs.

Variable sample : Type.

Lemma slice_chunk (n : Z) (i : nat) (l : list sample) :
  0 <= n ->
  Py.slice (Z.of_nat i * n) ((Z.of_nat i + 1) * n) l = chunk (Z.to_nat n) i l.
Proof.
  intros Hn. unfold Py.slice, Py.bound, chunk.
  destruct (Z.ltb_spec (Z.of_nat i * n) 0); [nia |].
  destruct (Z.ltb_spec ((Z.of_nat i + 1) * n) 0); [nia |].
  replace (Z.to_nat (Z.of_nat i * n)) with (i * Z.to_nat n)%nat by nia.
  replace (Z.to_nat ((Z.of_nat i + 1) * n))
    with (i * Z.to_nat n + Z.to_nat n)%nat by nia.
  set (k := Z.to_nat n). set (a := (i * k)%nat).
  destruct (Nat.le_gt_cases (length l) a) as [Hge | Hlt].
  - rewrite !Nat.min_l by lia.
    rewrite (skipn_all2 l) by lia. rewrite (skipn_all2 l) by lia.
    rewrite !firstn_nil. reflexivity.
  - rewrite (Nat.min_r (length l) a) by lia.
    destruct (Nat.le_gt_cases (length l) (a + k)) as [Hge2 | Hlt2].
    + rewrite Nat.min_l by lia.
      rewrite !firstn_all2; [reflexivity | |]; rewrite length_skipn; lia.
    + rewrite Nat.min_r by lia. f_equal. lia.
Qed.

Lemma chunk_cons (n i : nat) (b rest : list sample) :
  length b = n -> chunk n (S i) (b ++ rest) = chunk n i rest.
Proof.
  intros Hb. unfold chunk. f_equal.
  replace (S i * n)%nat with (i * n + n)%nat by lia.
  rewrite <- skipn_skipn. f_equal.
  rewrite skipn_app, skipn_all2 by lia.
  replace (n - length b)%nat with 0%nat by lia. reflexivity.
Qed.

Lemma chunks_of_concat (n : nat) (bs : list (list sample)) :
  Forall (fun b => length b = n) bs ->
  map (fun i => chunk n i (concat bs)) (seq 0 (length bs)) = bs.
Proof.
  induction 1 as [| b bs Hb Hbs IH]; [reflexivity |].
  cbn [length seq map concat]. f_equal.
  - unfold chunk. cbn [Nat.mul skipn]. rewrite firstn_app.
    rewrite firstn_all2 by lia.
    replace (n - length b)%nat with 0%nat by lia.
    cbn [firstn]. apply app_nil_r.
  - rewrite <- seq_shift, map_map. rewrite <- IH at 2.
    apply map_ext. intros i. apply chunk_cons. exact Hb.
Qed.

Lemma concat_chunks (n k : nat) :
  forall l : list sample, length l = (k * n)%nat ->
    concat (map (fun i => chunk n i l) (seq 0 k)) = l
    /\ Forall (fun b => length b = n) (map (fun i => chunk n i l) (seq 0 k)).
Proof.
  induction k as [| k IH]; intros l Hl.
  - destruct l; [split; [reflexivity | constructor] | discriminate].
  - cbn [seq map concat].
    rewrite <- seq_shift, map_map.
    assert (Hsplit : l = firstn n l ++ skipn n l)
      by (symmetry; apply firstn_skipn).
    assert (Hf : length (firstn n l) = n) by (rewrite length_firstn; lia).
    assert (Hs : length (skipn n l) = (k * n)%nat)
      by (rewrite length_skipn; lia).
    destruct (IH (skipn n l) Hs) as [IHc IHf].
    assert (E : map (fun i => chunk n (S i) l) (seq 0 k)
                = map (fun i => chunk n i (skipn n l)) (seq 0 k)).
    { apply map_ext. intros i. rewrite Hsplit at 1.
      apply chunk_cons. exact Hf. }
    rewrite E, IHc.
    assert (E0 : chunk n 0 l = firstn n l) by reflexivity.
    rewrite E0. split.
    + apply firstn_skipn.
    + constructor; assumption.
Qed.

Lemma range_map (f : Z -> list sample) (k : nat) :
  map f (Py.range k) = map (fun i => f (Z.of_nat i)) (seq 0 k).
Proof. unfold Py.range. apply map_map. Qed.

(** Removal undoes insertion whenever the prefix is not empty. *)
Lemma remove_add_cyclic_prefix (signal : list sample) (num_blocks n_fft : Z)
    (cp_ratio : Q) :
  0 <= num_blocks -> 0 < n_fft ->
  1 <= py_int (inject_Z n_fft * cp_ratio) <= n_fft ->
  Z.of_nat (length signal) = num_blocks * n_fft ->
  remove_cyclic_prefix
    (fst (add_cyclic_prefix signal num_blocks n_fft cp_ratio)) n_fft
    (snd (add_cyclic_prefix signal num_blocks n_fft cp_ratio))
  = Some signal.
Proof.
  intros Hk Hn Hc Hlen.
  unfold add_cyclic_prefix. cbn [fst snd].
  set (cp_len := py_int (inject_Z n_fft * cp_ratio)) in *.
  set (k := Z.to_nat num_blocks). set (n := Z.to_nat n_fft).
  set (c := Z.to_nat cp_len).
  assert (Hl : length signal = (k * n)%nat) by nia.
  destruct (concat_chunks n k signal Hl) as [Hcat Hall].
  (* the transmitted blocks *)
  assert (Etx : map (fun i =>
                   let block := Py.slice (i * n_fft) ((i + 1) * n_fft) signal in
                   let cp := Py.slice_from (- cp_len) block in cp ++ block)
                  (Py.range k) = prefixed signal k n c).
  { rewrite range_map. unfold prefixed. rewrite map_map.
    apply map_ext_in. intros i Hi. cbv zeta.
    rewrite slice_chunk by lia. fold n.
    assert (Hb : length (chunk n i signal) = n).
    { rewrite Forall_forall in Hall. apply Hall.
      apply in_map_iff. exists i. split; [reflexivity | exact Hi]. }
    f_equal. unfold Py.slice_from, Py.bound. rewrite Hb.
    destruct (Z.ltb_spec (- cp_len) 0); [| lia].
    f_equal. lia. }
  cbv zeta in Etx. rewrite Etx.
  assert (Hpre : Forall (fun b => length b = (n + c)%nat) (prefixed signal k n c)).
  { unfold prefixed. rewrite Forall_map.
    eapply Forall_impl; [| exact Hall]. cbv beta. intros b Hb.
    rewrite length_app, length_skipn. lia. }
  assert (Hplen : length (prefixed signal k n c) = k).
  { unfold prefixed. rewrite !length_map, length_seq. reflexivity. }
  assert (Hrx : length (concat (prefixed signal k n c)) = (k * (n + c))%nat).
  { rewrite length_concat.
    assert (G : forall bs : list (list sample),
               Forall (fun b => length b = (n + c)%nat) bs ->
               list_sum (map (@length sample) bs) = (length bs * (n + c))%nat).
    { induction 1 as [| b bs Hb _ IH]; [reflexivity |].
      unfold list_sum in *. cbn [map fold_right length]. rewrite IH, Hb. lia. }
    rewrite (G _ Hpre), Hplen. reflexivity. }
  unfold remove_cyclic_prefix.
  destruct (Z.eqb_spec (n_fft + cp_len) 0) as [E0 | _]; [lia |].
  f_equal. rewrite Hrx.
  replace (Z.to_nat (Z.of_nat (k * (n + c)) / (n_fft + cp_len))) with k.
  2:{ replace (Z.of_nat (k * (n + c))) with (Z.of_nat k * (n_fft + cp_len)) by nia.
      rewrite Z.div_mul by lia. lia. }
  rewrite range_map.
  assert (Erx : map (fun i =>
                  let full_block :=
                    Py.slice (Z.of_nat i * (n_fft + cp_len))
                             ((Z.of_nat i + 1) * (n_fft + cp_len))
                             (concat (prefixed signal k n c)) in
                  Py.slice_from cp_len full_block) (seq 0 k)
                = map (fun b => skipn c b)
                      (map (fun i => chunk (n + c) i (concat (prefixed signal k n c)))
                           (seq 0 k))).
  { rewrite map_map. apply map_ext. intros i. cbv zeta.
    rewrite slice_chunk by lia.
    replace (Z.to_nat (n_fft + cp_len)) with (n + c)%nat by lia.
    unfold Py.slice_from, Py.bound.
    destruct (Z.ltb_spec cp_len 0); [lia |]. fold c.
    destruct (Nat.le_gt_cases (length (chunk (n + c) i
                 (concat (prefixed signal k n c)))) c) as [Hle | Hgt].
    - rewrite Nat.min_l by lia. rewrite !skipn_all2 by lia. reflexivity.
    - rewrite Nat.min_r by lia. reflexivity. }
  cbv zeta in Erx |- *. rewrite Erx.
  pose proof (chunks_of_concat (n + c) _ Hpre) as Hch.
  rewrite Hplen in Hch. rewrite Hch.
  unfold prefixed. rewrite map_map.
  transitivity (concat (map (fun b => b)
                  (map (fun i => chunk n i signal) (seq 0 k))));
    [| rewrite map_id; exact Hcat].
  f_equal. apply map_ext_in. intros b Hb.
  rewrite Forall_forall in Hall. specialize (Hall b Hb).
  rewrite skipn_app, length_skipn.
  rewrite skipn_all2 by (rewrite length_skipn; lia).
  replace (c - (length b - (n - c)))%nat with 0%nat by lia.
  reflexivity.
Qed.

End CyclicPrefixProofs.

(** The prefix is shorter than a block for every ratio in (0,1). *)
Lemma cp_len_below_n_fft (n_fft : Z) (cp_ratio : Q) :
  0 < n_fft -> (0 < cp_ratio)%Q -> (cp_ratio < 1)%Q ->
  0 <= py_int (inject_Z n_fft * cp_ratio) < n_fft.
Proof.
  intros Hn H0 H1. destruct cp_ratio as [p q].
  unfold Qlt in H0, H1. cbn in H0, H1.
  unfold py_int, Qmult, inject_Z.
  cbn [Qnum Qden]. rewrite Pos.mul_1_l.
  rewrite Z.quot_div_nonneg by nia.
  split.
  - apply Z.div_pos; nia.
  - apply Z.div_lt_upper_bound; nia.
Qed.

(** C3 fails on the code when the prefix is empty. With [n_fft = 2] and
    [cp_ratio = 1/4] the prefix length is [int(0.5) = 0]; the slice
    [block[-0:]] is then the whole block, so insertion doubles the block,
    and removal with [cp_len = 0] returns the doubled signal instead of
    the original two samples. *)
Theorem cyclic_prefix_roundtrip_empty_prefix :
  let signal : list csample := [(1, 0); (0, 1)]%Q in
  add_cyclic_prefix signal 1 2 (1 # 4)
  = ([(1, 0); (0, 1); (1, 0); (0, 1)]%Q, 0)
  /\ remove_cyclic_prefix (fst (add_cyclic_prefix signal 1 2 (1 # 4))) 2
       (snd (add_cyclic_prefix signal 1 2 (1 # 4)))
     = Some [(1, 0); (0, 1); (1, 0); (0, 1)]%Q
  /\ remove_cyclic_prefix (fst (add_cyclic_prefix signal 1 2 (1 # 4))) 2
       (snd (add_cyclic_prefix signal 1 2 (1 # 4)))
     <> Some signal.
Proof. vm_compute. repeat split; discriminate. Qed.

(** With LTE's normal prefix ratio the same happens for every FFT size up
    to 8: [int(8 * 0.07) = 0]. *)
Lemma cyclic_prefix_empty_at_n_fft_8 :
  snd (add_cyclic_prefix (repeat (0, 0)%Q 8) 1 8 (7 # 100)) = 0.
Proof. reflexivity. Qed.

(* ================================================================== *)
(** * Scrambler: involution and generator state *)
(* ================================================================== *)

Section ScramblerProofs.

Import NpRandom.

Variable rng : Type.
Variable seeded : Z -> option rng.
Variable draw_bits : nat -> rng -> list Z * rng.

Lemma xor_arrays_involutive (a b : list Z) :
  length a = length b -> Py.map2 Z.lxor (Py.map2 Z.lxor a b) b = a.
Proof.
  revert b. induction a as [| x a IH]; intros [| y b] H; simpl in *;
    try reflexivity; try discriminate.
  rewrite Z.lxor_assoc, Z.lxor_nilpotent, Z.lxor_0_r.
  f_equal. apply IH. lia.
Qed.

(** What a call with an accepted seed returns, and the state it leaves. *)
Lemma apply_scrambling_ok (bits : list Z) (seed_ : Z) (g g1 : rng) :
  seeded seed_ = Some g1 ->
  length (fst (draw_bits (length bits) g1)) = length bits ->
  apply_scrambling seeded draw_bits bits seed_ g
  = (Ok (Py.map2 Z.lxor bits (fst (draw_bits (length bits) g1))), g).
Proof.
  intros Hs Hl.
  unfold apply_scrambling, bind, get_state, try_finally, seed, randint_0_2,
    bitwise_xor, set_state, ret, Py.broadcast2.
  rewrite Hs. destruct (draw_bits (length bits) g1) as [v g2].
  cbn [fst] in Hl |- *.
  rewrite (proj2 (Nat.eqb_eq _ _) (eq_sym Hl)). reflexivity.
Qed.

(** C4. Scrambling twice with one seed gives the bit array back. For a
    seed the generator accepts and a draw of as many values as there are
    bits, the first call returns an array and the second call on that
    array returns the input. *)
Theorem apply_scrambling_involution (bits : list Z) (seed_ : Z) (g g1 : rng) :
  seeded seed_ = Some g1 ->
  length (fst (draw_bits (length bits) g1)) = length bits ->
  exists scrambled,
    fst (apply_scrambling seeded draw_bits bits seed_ g) = Ok scrambled
    /\ fst (apply_scrambling seeded draw_bits scrambled seed_
              (snd (apply_scrambling seeded draw_bits bits seed_ g)))
       = Ok bits.
Proof.
  intros Hs Hl.
  set (mask := fst (draw_bits (length bits) g1)) in *.
  exists (Py.map2 Z.lxor bits mask).
  rewrite (apply_scrambling_ok bits seed_ g g1 Hs Hl).
  cbn [fst snd]. split; [reflexivity |].
  assert (Hx : length (Py.map2 Z.lxor bits mask) = length bits)
    by (apply map2_length; symmetry; exact Hl).
  rewrite (apply_scrambling_ok _ seed_ g g1 Hs); rewrite Hx; [| exact Hl].
  cbn [fst]. f_equal.
  apply xor_arrays_involutive. symmetry. exact Hl.
Qed.

(** C10. Whatever the bits and the seed, and whether the call returns or
    raises, the global generator is left in the state it was found in;
    hence any later draw sees the state it would have seen without the
    call. *)
Theorem apply_scrambling_restores_state (bits : list Z) (seed_ : Z) (g : rng) :
  snd (apply_scrambling seeded draw_bits bits seed_ g) = g
  /\ forall (B : Type) (later : NP rng B),
       later (snd (apply_scrambling seeded draw_bits bits seed_ g)) = later g.
Proof.
  assert (H : snd (apply_scrambling seeded draw_bits bits seed_ g) = g).
  { unfold apply_scrambling, bind, get_state, try_finally, set_state.
    match goal with
    | |- snd (let (r, _) := ?body in _) = _ => destruct body as [r g']
    end.
    reflexivity. }
  split; [exact H |]. intros B later. rewrite H. reflexivity.
Qed.

End ScramblerProofs.

Lemma apply_scrambling_involution_witness :
  lcg_seeded 2024 = Some 2024 /\
  length (fst (lcg_draw_bits (length [1; 0; 0; 1; 1; 1; 0; 1]) 2024))
  = length [1; 0; 0; 1; 1; 1; 0; 1] /\
  exists scrambled,
    fst (apply_scrambling lcg_seeded lcg_draw_bits
           [1; 0; 0; 1; 1; 1; 0; 1] 2024 7) = NpRandom.Ok scrambled
    /\ fst (apply_scrambling lcg_seeded lcg_draw_bits scrambled 2024
              (snd (apply_scrambling lcg_seeded lcg_draw_bits
                      [1; 0; 0; 1; 1; 1; 0; 1] 2024 7)))
       = NpRandom.Ok [1; 0; 0; 1; 1; 1; 0; 1].
Proof.
  split; [reflexivity |]. split; [reflexivity |].
  apply (apply_scrambling_involution Z lcg_seeded lcg_draw_bits
           [1; 0; 0; 1; 1; 1; 0; 1] 2024 7 2024); reflexivity.
Defined.

(** The scrambler on a concrete input: seed 2024 flips the bits the
    generator draws, a seed out of range raises, and both leave the
    generator in state 7. *)
Lemma apply_scrambling_runs :
  apply_scrambling lcg_seeded lcg_draw_bits [1; 0; 0; 1; 1; 1; 0; 1] 2024 7
  = (NpRandom.Ok [1; 0; 0; 0; 0; 1; 1; 0], 7)
  /\ apply_scrambling lcg_seeded lcg_draw_bits [1; 0; 0; 1; 1; 1; 0; 1] (-1) 7
     = (NpRandom.Raise, 7).
Proof. split; reflexivity. Qed.

(* ================================================================== *)
(** * Equaliser: the tiled divisor *)
(* ================================================================== *)

Section EqualizerProofs.

Variable complex : Type.
Variable cdiv : complex -> complex -> complex.
Variable fft : list complex -> Z -> list complex.
Variable below_threshold : complex -> bool.
Variable threshold : complex.




End EqualizerProofs.

(** The equaliser on Gaussian rationals with the exact 4-point transform:
    for [h = [1, 1]] the response on subcarriers 1 and 2 is [1 - i] and
    [0]; the zero is replaced by [1e-10]. *)
Lemma equalize_channel_runs :
  dft4 [(1, 0); (1, 0)]%Q 4 = [(2, 0); (1, -1); (0, 0); (1, 1)]%Q
  /\ equalize_channel qc_div dft4 qc_below qc_threshold
       [(1, 0); (0, 1); (2, 0)]%Q [(1, 0); (1, 0)]%Q 4 2
     = Some [(1 # 2, 1 # 2); (0, 10000000000); (1, 1)]%Q.
Proof. split; vm_compute; reflexivity. Qed.


(* ================================================================== *)
(** * Channel: energy of the impulse response *)
(* ================================================================== *)

Section ChannelProofs.

#[local] Open Scope R_scope.







End ChannelProofs.
